(** * py-ipv8: the Overlay base class and chunked DHT publication

    A shallow embedding of [overlay.py] (packet ingestion and the Lamport
    clock of an overlay) and of [publish_to_DHT] from
    [ipv8/test/REST/dht/test_dht_endpoint.py] (versioned, chunked
    publication of a byte string under a DHT key).

    Python integers are unbounded and are embedded as [Z]; byte strings are
    lists of [Byte.byte]; the DHT storage is a finite map from keys to the
    ordered list of raw entries stored under them; a Python exception is a
    [Raise] outcome that leaves the writes made so far in place.

    The storage itself, the publishing loop of the endpoint, the
    reconstruction of the latest value, the publish-if-changed guard and
    the [Peer] class live in modules that are
    not part of the sources at hand; each of them is modelled from the
    specification and marked as such. The model is sequential: one call
    runs to its end before the next one starts, so every generation a
    reader sees is complete. *)

From Stdlib Require Import ZArith Lia Sorted.
From Stdlib.Strings Require Byte.
From stdpp Require Import base option list gmap.

#[local] Open Scope Z_scope.

(** ** Bytes and byte strings *)

Abbreviation byte := Byte.byte.
Abbreviation bytes := (list Byte.byte).

#[global] Instance byte_eq_dec : EqDecision byte := Byte.byte_eq_dec.

#[global] Instance byte_countable : Countable byte :=
  inj_countable Byte.to_N Byte.of_N Byte.of_to_N.

(** The byte whose value is [z mod 256]. *)
Definition byte_of_Z (z : Z) : byte :=
  match Byte.of_N (Z.to_N (z mod 256)) with
  | Some b => b
  | None => Byte.x00
  end.

Definition Z_of_byte (b : byte) : Z := Z.of_N (Byte.to_N b).

(** ** Exceptions and the state-and-exception monad *)

Inductive exn : Set :=
| struct_error      (* struct.pack / struct.unpack *)
| ValueError        (* range() with a zero step *)
| EntryTooLarge     (* the store refuses an oversized entry *)
| InvalidKey        (* the key-parsing capability refuses the identity bytes *)
| MalformedPacket.  (* the split rule refuses the packet *)

Inductive Result (A : Type) : Type :=
| Ok (a : A)
| Raise (e : exn).
Arguments Ok {A} a.
Arguments Raise {A} e.

(** A computation over a mutable object of type [S]: it returns a value or
    raises, and in both cases hands back the object as it left it. *)
Definition M (S A : Type) : Type := S -> Result A * S.

Definition ret {S A} (a : A) : M S A := fun s => (Ok a, s).

Definition raise {S A} (e : exn) : M S A := fun s => (Raise e, s).

Definition bind {S A B} (m : M S A) (k : A -> M S B) : M S B :=
  fun s => match m s with
           | (Ok a, s') => k a s'
           | (Raise e, s') => (Raise e, s')
           end.

Definition lift {S A} (r : Result A) : M S A := fun s => (r, s).


Definition put_state {S} (s' : S) : M S unit := fun _ => (Ok tt, s').

Declare Scope py_scope.
Delimit Scope py_scope with py.
Notation "x <- m ;; k" := (bind m (fun x => k))
  (at level 100, m at next level, right associativity) : py_scope.
Notation "m ;;; k" := (bind m (fun _ => k))
  (at level 100, right associativity) : py_scope.

(** [for x in l: body(x)] *)
Fixpoint for_each {S A} (l : list A) (body : A -> M S unit) : M S unit :=
  match l with
  | [] => ret tt
  | x :: xs => (body x ;;; for_each xs body)%py
  end.

(** ** The Python built-ins used by the sources *)

Module Py.

(** Byte order of the platform: [struct.pack("H", _)] uses the native one. *)
Inductive byteorder : Set := little | big.

(** [struct.pack("H", n)]: an unsigned short in two bytes, native order;
    [struct.error] when [n] is not in [0, 65535]. *)
Definition pack_H (bo : byteorder) (n : Z) : Result bytes :=
  if (0 <=? n) && (n <=? 65535) then
    match bo with
    | little => Ok [byte_of_Z n; byte_of_Z (n / 256)]
    | big => Ok [byte_of_Z (n / 256); byte_of_Z n]
    end
  else Raise struct_error.

(** [struct.unpack("H", b)[0]]: [struct.error] unless [b] has two bytes. *)
Definition unpack_H (bo : byteorder) (b : bytes) : Result Z :=
  match b with
  | [b0; b1] =>
      match bo with
      | little => Ok (Z_of_byte b0 + 256 * Z_of_byte b1)
      | big => Ok (256 * Z_of_byte b0 + Z_of_byte b1)
      end
  | _ => Raise struct_error
  end.

(** [len(b)] *)
Definition len {A} (l : list A) : Z := Z.of_nat (length l).

(** [range(start, stop, step)] as the list it iterates over;
    [ValueError] when [step] is zero. *)
Definition range (start stop step : Z) : Result (list Z) :=
  if step =? 0 then Raise ValueError
  else
    let n := if 0 <? step
             then (stop - start + step - 1) / step
             else (start - stop - step - 1) / (- step) in
    Ok (map (fun k : nat => start + Z.of_nat k * step) (seq 0 (Z.to_nat n))).

(** A slice bound is counted from the end when negative and clamped to
    [0, len]. *)
Definition clamp (n k : Z) : nat :=
  Z.to_nat (if k <? 0 then Z.max (k + n) 0 else Z.min k n).

(** [b[i:j]] *)
Definition slice {A} (l : list A) (i j : Z) : list A :=
  let lo := clamp (len l) i in
  let hi := clamp (len l) j in
  take (hi - lo) (drop lo l).

End Py.

(** ** The DHT storage and chunked publication *)

(** What the platform and [dht/community.py] fix, taken as parameters: the
    byte order used by [struct.pack("H", _)] and the constant
    [MAX_ENTRY_SIZE], whose definition is not part of the sources. *)
Class Env : Set := {
  native : Py.byteorder;
  MAX_ENTRY_SIZE : Z
}.

Module DHT.

(** [storage]: for every key the raw entries stored under it, oldest
    first. *)
Abbreviation Storage := (gmap bytes (list bytes)).

(** Modelled from the spec: [storage.get(key)] of the DHT overlay (in
    [dht/], which is not part of the sources) as [ChunkedValueStore.get]:
    the entries under [key] in the order they were stored, the empty list
    for an unknown key. *)
Definition get (st : Storage) (key : bytes) : list bytes :=
  default [] (st !! key).

(** The storage after the entries [es] have been appended under [key],
    in order. *)
Definition append_entries (key : bytes) (es : list bytes) (st : Storage)
  : Storage :=
  match es with
  | [] => st
  | _ => <[key := get st key ++ es]> st
  end.

(** The first [n] consecutive slices of [size] bytes of [data]. *)
Fixpoint slices (n size : nat) (data : bytes) : list bytes :=
  match n with
  | O => []
  | S n' => take size data :: slices n' size (drop size data)
  end.

(** [ceil(len(data) / size)] *)
Definition slice_count (size : nat) (data : bytes) : nat :=
  ((length data + size - 1) / size)%nat.

(** The header of the spec has one reserved byte after the version. *)
Definition spec_reserved : nat := 1.

Section WithEnv.
Context `{Env}.

(** Modelled from the spec: [DHTCommunity.store_value] (in
    [dht/community.py], which is not part of the sources) as
    [ChunkedValueStore.put]: an entry longer than [MAX_ENTRY_SIZE] is
    refused with [EntryTooLarge]; any other entry is appended to the
    list under [key], and nothing else changes. *)
Definition store_value (key entry : bytes) : M Storage unit :=
  fun st =>
    if MAX_ENTRY_SIZE <? Py.len entry then (Raise EntryTooLarge, st)
    else (Ok tt, <[key := get st key ++ [entry]]> st).

(** [publish_to_DHT(peer, key, data, numeric_version)], with the
    storage of the peer's DHT overlay as the state. *)
Definition publish_to_DHT (key data : bytes) (numeric_version : Z)
  : M Storage unit :=
  (version <- lift (Py.pack_H native numeric_version) ;;
   idx <- lift (Py.range 0 (Py.len data) (MAX_ENTRY_SIZE - 3)) ;;
   for_each idx (fun i =>
     let blob_chunk := version ++ Py.slice data i (i + MAX_ENTRY_SIZE - 3) in
     store_value key blob_chunk))%py.

(** The slice size used by [publish_to_DHT], and the entries it builds
    from the packed version [ver] and the value [data]: the version
    followed by a slice, slice after slice. *)
Definition slice_size : nat := Z.to_nat (MAX_ENTRY_SIZE - 3).

Definition entries_of (ver data : bytes) : list bytes :=
  (fun s => ver ++ s) <$> slices (slice_count slice_size data) slice_size data.

(** *** Reconstruction *)

(** A parsed raw entry. *)
Record chunk : Type := Chunk {
  version : Z;
  reserved : bytes;
  payload : bytes
}.

(** Modelled from the spec: step 2 of the reconstruction protocol of
    [DHTBlockEndpoint] (in [REST/dht_endpoint.py], which is not part of
    the sources). The header is the two-byte version field followed by
    [rsv] reserved bytes; an entry too short to hold a header cannot be
    parsed. The reader of the spec is the one at [rsv = spec_reserved],
    with its three-byte header; the width is kept as an argument only so
    that what holds whatever the width can be said once. *)
Definition parse_entry (rsv : nat) (entry : bytes) : option chunk :=
  if (length entry <? 2 + rsv)%nat then None
  else match Py.unpack_H native (take 2 entry) with
       | Ok v => Some {| version := v;
                         reserved := take rsv (drop 2 entry);
                         payload := drop (2 + rsv) entry |}
       | Raise _ => None
       end.

(** Modelled from the spec: step 3, the slices of the entries of
    version [v], in storage order. *)
Definition generation (v : Z) (cs : list chunk) : list bytes :=
  payload <$> filter (fun c => version c = v) cs.

(** Modelled from the spec: step 4, the numerically greatest version. *)
Definition latest_version (cs : list chunk) : option Z :=
  match cs with
  | [] => None
  | c :: cs' => Some (foldr Z.max (version c) (version <$> cs'))
  end.

(** Modelled from the spec: [fetchLatest(key)], the reconstruction
    protocol. Entries that cannot be parsed are discarded; the result is
    absent ([None]) when nothing is left. *)
Definition fetchLatest (rsv : nat) (st : Storage) (key : bytes)
  : option bytes :=
  let cs := omap (parse_entry rsv) (get st key) in
  match latest_version cs with
  | Some v => Some (concat (generation v cs))
  | None => None
  end.

(** Modelled from the spec: the raw entries of the publish protocol (4.4,
    steps 1 to 3) for the encoded version [ver] and the value: the value
    is cut into consecutive slices of [MAX_ENTRY_SIZE - H] bytes, [H = 3],
    and each raw entry is the version, the reserved byte [rb] and a
    slice. *)
Definition raw_entries (rb : byte) (ver value : bytes) : list bytes :=
  (fun s => ver ++ [rb] ++ s) <$>
    slices (slice_count slice_size value) slice_size value.

(** Modelled from the spec: [publish(key, value, version)], the publish
    protocol of the coordinator. In the repository it is the publishing
    loop of [DHTBlockEndpoint] (in [REST/dht_endpoint.py], which is not
    part of the sources), the one behind the implicit publication of
    [test_added_block_implicit]; [publish_to_DHT] above is the helper with
    which the test publishes by hand. The version is encoded as
    [publish_to_DHT] encodes it, and the raw entries are put in slice
    order. *)
Definition publish (rb : byte) (key value : bytes) (n : Z) : M Storage unit :=
  (ver <- lift (Py.pack_H native n) ;;
   for_each (raw_entries rb ver value) (fun entry => store_value key entry))%py.


End WithEnv.

End DHT.

(** ** The Overlay base class *)

Module Overlay.

Section Base.
(** Public keys, network addresses, and the attributes a subclass adds. *)
Context {Key Address Sub : Type}.

(** Modelled from the spec: [Peer] (in [peer.py], which is not part of
    the sources): an identity, an address and the Lamport counter that
    belongs to it, zero for a new peer. *)
Record Peer : Type := mkPeer {
  key : Key;
  address : Address;
  _lamport_timestamp : Z
}.

Definition new_Peer (k : Key) (a : Address) : Peer :=
  {| key := k; address := a; _lamport_timestamp := 0 |}.

(** Modelled from the spec: [Peer.get_lamport_timestamp], the clock's
    [current()]. *)
Definition get_lamport_timestamp (p : Peer) : Z := _lamport_timestamp p.

(** Modelled from the spec: [Peer.update_clock], the clock's
    [observe(remote)]: the counter becomes [max(counter, remote)]. *)
Definition update_clock (timestamp : Z) (p : Peer) : Peer :=
  {| key := key p; address := address p;
     _lamport_timestamp := Z.max (_lamport_timestamp p) timestamp |}.

(** The attributes of an overlay instance that the methods below read
    or write. *)
Record Overlay : Type := mkOverlay {
  master_peer : Peer;
  my_peer : Peer;
  sub : Sub
}.

Definition set_my_peer (p : Peer) (o : Overlay) : Overlay :=
  {| master_peer := master_peer o; my_peer := p; sub := sub o |}.

(** What a concrete overlay has to supply: the two abstract methods, and
    the key parser of [self.crypto]. *)
Class Methods : Type := {
  split_key_data : bytes -> Result (bytes * bytes);
  key_from_public_bin : bytes -> Result Key;
  on_data : Peer -> bytes -> M Overlay unit
}.

Context `{Methods}.

(** [on_packet(self, packet)] *)
Definition on_packet (packet : Address * bytes) : M Overlay unit :=
  let '(source_address, data) := packet in
  (kd <- lift (split_key_data data) ;;
   let '(key_bin, data) := kd in
   key <- lift (key_from_public_bin key_bin) ;;
   on_data (new_Peer key source_address) data)%py.

(** The property [global_time]. *)
Definition global_time : M Overlay Z :=
  fun o => (Ok (get_lamport_timestamp (my_peer o)), o).

(** [update_global_time(self, global_time)] *)
Definition update_global_time (t : Z) : M Overlay unit :=
  (g <- global_time ;;
   if g <? t
   then (fun o => (Ok tt, set_my_peer (update_clock t (my_peer o)) o))
   else ret tt)%py.

(** [claim_global_time(self)] *)
Definition claim_global_time : M Overlay Z :=
  (g <- global_time ;;
   update_global_time (g + 1) ;;;
   global_time)%py.

(** A call on the clock, and a run of such calls: the clock values held
    after each call, in order. *)
Inductive clock_call : Set :=
| Claim
| Update (x : Z).

Definition do_call (c : clock_call) (o : Overlay) : Overlay :=
  match c with
  | Claim => snd (claim_global_time o)
  | Update x => snd (update_global_time x o)
  end.

Definition current (o : Overlay) : Z := get_lamport_timestamp (my_peer o).

Fixpoint held (cs : list clock_call) (o : Overlay) : list Z :=
  match cs with
  | [] => []
  | c :: cs' => current (do_call c o) :: held cs' (do_call c o)
  end.

(** The overlay after a run of calls on its clock. *)
Definition run (cs : list clock_call) (o : Overlay) : Overlay :=
  foldl (fun o' c => do_call c o') o cs.

End Base.

Arguments Peer : clear implicits.
Arguments Overlay : clear implicits.
Arguments Methods : clear implicits.

End Overlay.

(** ** The helpers of the DHT endpoint test *)

Module TestDHTEndpoint.

Section Deserialize.
(** Serializable formats, deserialized objects, and what the serializer
    raises on data it cannot unpack. *)
Context {Fmt Obj E : Type}.

(** What [deserialize_payload] raises: the [IndexError] of the indexing,
    or whatever the serializer raised. *)
Inductive raised : Type :=
| IndexError
| FromSerializer (e : E).

(** [self.serializer.unpack_to_serializables], taken as a parameter: the
    [Serializer] class is not part of the sources. *)
Variable unpack_to_serializables : list Fmt -> bytes -> E + list Obj.

(** [deserialize_payload(self, serializables, data)] *)
Definition deserialize_payload (serializables : list Fmt) (data : bytes)
  : raised + Obj :=
  match unpack_to_serializables serializables data with
  | inl e => inl (FromSerializer e)
  | inr payload =>
      match Py.slice payload 0 (-1) with
      | x :: _ => inr x
      | [] => inl IndexError
      end
  end.

End Deserialize.

Arguments raised : clear implicits.

End TestDHTEndpoint.

(** ** Concrete configurations and inputs used in the examples *)

Module Examples.

(** A little-endian platform with [MAX_ENTRY_SIZE = 50]. *)
Definition env50 : Env := {| native := Py.little; MAX_ENTRY_SIZE := 50 |}.

Definition key0 : bytes := [Byte.x6b; Byte.x30].

(** The 120 bytes 0, 1, ..., 119. *)
Definition value120 : bytes :=
  (fun k : nat => byte_of_Z (Z.of_nat k)) <$> seq 0 120.

(** The storage after [publish_to_DHT(key0, data, n)] on an empty one. *)
Definition published (data : bytes) (n : Z) : DHT.Storage :=
  snd (@DHT.publish_to_DHT env50 key0 data n ∅).

(** An overlay whose packets start with a four-byte key: shorter packets
    cannot be split, keys that start with a zero byte are refused, and
    [on_data] files the payload with the sender's address. Addresses are
    port numbers here. *)
Definition demo_split (data : bytes) : Result (bytes * bytes) :=
  if (length data <? 4)%nat then Raise MalformedPacket
  else Ok (take 4 data, drop 4 data).

Definition demo_key (key_bin : bytes) : Result bytes :=
  match key_bin with
  | Byte.x00 :: _ => Raise InvalidKey
  | _ => Ok key_bin
  end.

Definition demo_on_data (peer : Overlay.Peer bytes Z) (data : bytes)
  : M (Overlay.Overlay bytes Z (list (Z * bytes))) unit :=
  fun o => (Ok tt,
            Overlay.mkOverlay (Overlay.master_peer o) (Overlay.my_peer o)
              ((Overlay.address peer, data) :: Overlay.sub o)).

Definition demo : Overlay.Methods bytes Z (list (Z * bytes)) :=
  {| Overlay.split_key_data := demo_split;
     Overlay.key_from_public_bin := demo_key;
     Overlay.on_data := demo_on_data |}.

(** A freshly created instance of that overlay, its clock at [c]. *)
Definition demo_overlay (c : Z) : Overlay.Overlay bytes Z (list (Z * bytes)) :=
  Overlay.mkOverlay
    (Overlay.new_Peer [Byte.x01; Byte.x02; Byte.x03; Byte.x04] 0)
    (Overlay.mkPeer [Byte.x05; Byte.x06; Byte.x07; Byte.x08] 8090 c)
    [].

End Examples.

(** ** Facts about the built-ins *)

Section PyFacts.

Lemma Z_of_byte_of_Z (z : Z) : Z_of_byte (byte_of_Z z) = z mod 256.
Proof.
  unfold Z_of_byte, byte_of_Z.
  assert (Hr : 0 <= z mod 256 < 256) by (apply Z.mod_pos_bound; lia).
  destruct (Byte.of_N (Z.to_N (z mod 256))) as [b|] eqn:E.
  - apply Byte.to_of_N in E. rewrite E. lia.
  - apply Byte.of_N_None_iff in E. lia.
Qed.

Lemma Z_of_byte_range (b : byte) : 0 <= Z_of_byte b < 256.
Proof.
  unfold Z_of_byte. pose proof (Byte.to_N_bounded b). lia.
Qed.

Lemma pack_H_ok (bo : Py.byteorder) (n : Z) :
  0 <= n <= 65535 -> exists ver, Py.pack_H bo n = Ok ver.
Proof.
  intros Hn. unfold Py.pack_H.
  replace ((0 <=? n) && (n <=? 65535)) with true by (symmetry; apply andb_true_iff; lia).
  destruct bo; eauto.
Qed.

Lemma pack_H_inv (bo : Py.byteorder) (n : Z) (ver : bytes) :
  Py.pack_H bo n = Ok ver -> 0 <= n <= 65535 /\ length ver = 2%nat.
Proof.
  unfold Py.pack_H.
  destruct ((0 <=? n) && (n <=? 65535)) eqn:E; [|discriminate].
  apply andb_true_iff in E. intros Hv.
  split; [lia|]. destruct bo; inversion Hv; reflexivity.
Qed.

Lemma pack_H_raises (bo : Py.byteorder) (n : Z) :
  ~ 0 <= n <= 65535 -> Py.pack_H bo n = Raise struct_error.
Proof.
  intros Hn. unfold Py.pack_H.
  destruct ((0 <=? n) && (n <=? 65535)) eqn:E; [|reflexivity].
  apply andb_true_iff in E. lia.
Qed.

(** Unpacking what [struct.pack] produced gives the number back. *)
Lemma unpack_pack_H (bo : Py.byteorder) (n : Z) (ver : bytes) :
  Py.pack_H bo n = Ok ver -> Py.unpack_H bo ver = Ok n.
Proof.
  intros Hp. destruct (pack_H_inv _ _ _ Hp) as [Hn _].
  unfold Py.pack_H in Hp.
  destruct ((0 <=? n) && (n <=? 65535)); [|discriminate].
  assert (Hhi : (n / 256) mod 256 = n / 256).
  { apply Z.mod_small. split; [apply Z.div_pos; lia|].
    apply Z.div_lt_upper_bound; lia. }
  pose proof (Z.div_mod n 256 ltac:(lia)) as Hdm.
  destruct bo; inversion Hp; subst ver; cbn [Py.unpack_H];
    rewrite !Z_of_byte_of_Z, Hhi; f_equal; lia.
Qed.

Lemma range_zero_step (start stop : Z) :
  Py.range start stop 0 = Raise ValueError.
Proof. reflexivity. Qed.

Lemma range_negative_step (stop step : Z) :
  0 <= stop -> step < 0 -> Py.range 0 stop step = Ok [].
Proof.
  intros Hs Hn. unfold Py.range.
  destruct (Z.eqb_spec step 0); [lia|].
  destruct (Z.ltb_spec 0 step); [lia|].
  replace (Z.to_nat ((0 - stop - step - 1) / - step)) with O; [reflexivity|].
  assert ((0 - stop - step - 1) / - step <= 0); [|lia].
  assert ((0 - stop - step - 1) / - step < 1); [|lia].
  apply Z.div_lt_upper_bound; lia.
Qed.

(** With a positive step, [range(0, len(l), step)] visits the
    [ceil(len(l) / step)] multiples of the step below [len(l)]. *)
Lemma range_positive_step {A} (l : list A) (step : Z) :
  0 < step ->
  Py.range 0 (Py.len l) step =
    Ok ((fun k : nat => Z.of_nat k * step) <$>
          seq 0 ((length l + Z.to_nat step - 1) / Z.to_nat step)).
Proof.
  intros Hs. unfold Py.range, Py.len.
  destruct (Z.eqb_spec step 0); [lia|].
  destruct (Z.ltb_spec 0 step); [|lia].
  f_equal.
  replace (Z.to_nat ((Z.of_nat (length l) - 0 + step - 1) / step))
    with ((length l + Z.to_nat step - 1) / Z.to_nat step)%nat.
  - apply list_fmap_ext. intros _ k _. lia.
  - apply Nat2Z.inj. rewrite Nat2Z.inj_div, Z2Nat.id.
    + replace (Z.of_nat (length l + Z.to_nat step - 1))
        with (Z.of_nat (length l) - 0 + step - 1) by lia.
      rewrite Z2Nat.id; [reflexivity|]. apply Z.div_pos; lia.
    + lia.
Qed.

(** A slice with bounds [0 <= i <= j] is a [take] after a [drop]. *)
Lemma slice_nonneg {A} (l : list A) (i j : Z) :
  0 <= i <= j ->
  Py.slice l i j = take (Z.to_nat (j - i)) (drop (Z.to_nat i) l).
Proof.
  intros Hij. unfold Py.slice, Py.clamp, Py.len.
  destruct (Z.ltb_spec i 0); [lia|].
  destruct (Z.ltb_spec j 0); [lia|].
  destruct (Z_le_gt_dec i (Z.of_nat (length l))) as [Hi|Hi].
  - rewrite (Z.min_l i) by lia.
    destruct (Z_le_gt_dec j (Z.of_nat (length l))) as [Hj|Hj].
    + rewrite (Z.min_l j) by lia. f_equal. lia.
    + rewrite (Z.min_r j) by lia.
      rewrite !take_ge; [reflexivity| |]; rewrite length_drop; lia.
  - rewrite !(Z.min_r _ (Z.of_nat (length l))) by lia.
    rewrite Nat2Z.id, Nat.sub_diag, take_0.
    rewrite drop_ge by lia. symmetry. apply take_nil.
Qed.

End PyFacts.

(** ** Facts about the storage and about slicing *)

Section StorageFacts.
Context `{Env}.

Lemma get_insert (st : DHT.Storage) (key : bytes) (es : list bytes) :
  DHT.get (<[key := es]> st) key = es.
Proof. unfold DHT.get. rewrite lookup_insert_eq. reflexivity. Qed.

Lemma get_append_entries (st : DHT.Storage) (key : bytes) (es : list bytes) :
  DHT.get (DHT.append_entries key es st) key = DHT.get st key ++ es.
Proof.
  destruct es as [|e es]; cbn [DHT.append_entries].
  - rewrite app_nil_r. reflexivity.
  - apply get_insert.
Qed.

Lemma lookup_append_entries_ne (st : DHT.Storage) (key key' : bytes)
    (es : list bytes) :
  key <> key' -> DHT.append_entries key es st !! key' = st !! key'.
Proof.
  intros Hne. destruct es as [|e es]; cbn [DHT.append_entries].
  - reflexivity.
  - apply lookup_insert_ne, Hne.
Qed.

Lemma append_entries_app (st : DHT.Storage) (key : bytes)
    (es1 es2 : list bytes) :
  DHT.append_entries key es2 (DHT.append_entries key es1 st)
  = DHT.append_entries key (es1 ++ es2) st.
Proof.
  destruct es1 as [|e1 es1]; [reflexivity|].
  destruct es2 as [|e2 es2].
  - rewrite app_nil_r. reflexivity.
  - cbn [DHT.append_entries app].
    rewrite get_insert, insert_insert_eq.
    rewrite <- app_assoc. reflexivity.
Qed.

(** The store accepts exactly the entries of at most [MAX_ENTRY_SIZE]
    bytes. *)
Lemma store_value_accepts (st : DHT.Storage) (key entry : bytes) :
  Py.len entry <= MAX_ENTRY_SIZE ->
  DHT.store_value key entry st = (Ok tt, DHT.append_entries key [entry] st).
Proof.
  intros Hle. unfold DHT.store_value.
  destruct (Z.ltb_spec MAX_ENTRY_SIZE (Py.len entry)); [lia|reflexivity].
Qed.

Lemma store_value_rejects (st : DHT.Storage) (key entry : bytes) :
  MAX_ENTRY_SIZE < Py.len entry ->
  DHT.store_value key entry st = (Raise EntryTooLarge, st).
Proof.
  intros Hgt. unfold DHT.store_value.
  destruct (Z.ltb_spec MAX_ENTRY_SIZE (Py.len entry)); [reflexivity|lia].
Qed.

(** A loop that stores [f i] for every [i] of [l], none of them
    oversized, appends them all in order. *)
Lemma for_each_store_value {A} (f : A -> bytes) (key : bytes) (l : list A) :
  Forall (fun e => Py.len e <= MAX_ENTRY_SIZE) (f <$> l) ->
  forall st : DHT.Storage,
    for_each l (fun i => DHT.store_value key (f i)) st
    = (Ok tt, DHT.append_entries key (f <$> l) st).
Proof.
  induction l as [|x xs IH]; intros Hall st.
  - reflexivity.
  - rewrite fmap_cons in Hall. apply Forall_cons in Hall as [Hx Hxs].
    cbn [for_each]. unfold bind at 1.
    rewrite (store_value_accepts _ _ _ Hx), (IH Hxs).
    rewrite append_entries_app. reflexivity.
Qed.

(** *** Slices *)

Lemma slices_length (n size : nat) (data : bytes) :
  length (DHT.slices n size data) = n.
Proof.
  revert data. induction n as [|n IH]; intros data; cbn; [|rewrite IH]; reflexivity.
Qed.

Lemma slices_as_fmap (n size : nat) (data : bytes) :
  DHT.slices n size data
  = (fun k : nat => take size (drop (k * size) data)) <$> seq 0 n.
Proof.
  revert data. induction n as [|n IH]; intros data; [reflexivity|].
  cbn [DHT.slices seq]. rewrite fmap_cons. f_equal.
  rewrite IH, <- fmap_S_seq, <- list_fmap_compose.
  apply list_fmap_ext. intros _ k _. cbn.
  rewrite drop_drop. reflexivity.
Qed.

(** Enough slices, glued together, give the value back. *)
Lemma concat_slices (n size : nat) (data : bytes) :
  (length data <= n * size)%nat ->
  concat (DHT.slices n size data) = data.
Proof.
  revert data. induction n as [|n IH]; intros data Hlen.
  - destruct data; [reflexivity|cbn in Hlen; lia].
  - cbn [DHT.slices concat]. rewrite IH.
    + apply take_drop.
    + rewrite length_drop. lia.
Qed.

Lemma slice_count_enough (size : nat) (data : bytes) :
  (0 < size)%nat -> (length data <= DHT.slice_count size data * size)%nat.
Proof.
  intros Hs. unfold DHT.slice_count.
  pose proof (Nat.div_mod_eq (length data + size - 1) size).
  pose proof (Nat.mod_upper_bound (length data + size - 1) size).
  nia.
Qed.

Lemma slice_count_tight (size : nat) (data : bytes) :
  (0 < size)%nat ->
  ((DHT.slice_count size data - 1) * size < length data
   \/ DHT.slice_count size data = 0)%nat.
Proof.
  intros Hs. unfold DHT.slice_count.
  pose proof (Nat.div_mod_eq (length data + size - 1) size).
  pose proof (Nat.mod_upper_bound (length data + size - 1) size).
  destruct ((length data + size - 1) / size)%nat eqn:E; [right; reflexivity|left].
  nia.
Qed.

Lemma slice_count_nil (size : nat) : (0 < size)%nat -> DHT.slice_count size [] = O.
Proof.
  intros Hs. unfold DHT.slice_count. cbn [length].
  apply Nat.div_small. lia.
Qed.

Lemma slice_count_pos (size : nat) (data : bytes) :
  (0 < size)%nat -> data <> [] -> (0 < DHT.slice_count size data)%nat.
Proof.
  intros Hs Hd. unfold DHT.slice_count.
  assert (0 < length data)%nat by (destruct data; [congruence|cbn; lia]).
  apply Nat.div_str_pos. lia.
Qed.

(** Every slice has at most [size] bytes. *)
Lemma slices_bounded (n size : nat) (data : bytes) :
  Forall (fun s => (length s <= size)%nat) (DHT.slices n size data).
Proof.
  revert data. induction n as [|n IH]; intros data; cbn [DHT.slices].
  - constructor.
  - constructor; [|apply IH]. rewrite length_take. lia.
Qed.

(** The [k]-th slice is full when another [size] bytes are there, and
    holds the rest otherwise. *)
Lemma slices_lookup (n size : nat) (data : bytes) (k : nat) :
  (k < n)%nat ->
  exists s, DHT.slices n size data !! k = Some s
            /\ length s = Nat.min size (length data - k * size).
Proof.
  intros Hk. rewrite slices_as_fmap, list_lookup_fmap, lookup_seq_lt by lia.
  cbn. eexists; split; [reflexivity|].
  rewrite length_take, length_drop. reflexivity.
Qed.

End StorageFacts.

(** ** What [publish_to_DHT] does to the storage *)

Section PublishFacts.
Context `{Env}.

Lemma entries_of_nil (ver : bytes) :
  3 < MAX_ENTRY_SIZE -> DHT.entries_of ver [] = [].
Proof.
  intros Hmax. unfold DHT.entries_of.
  rewrite slice_count_nil by (unfold DHT.slice_size; lia). reflexivity.
Qed.

Lemma entries_of_length (ver data : bytes) :
  length (DHT.entries_of ver data)
  = DHT.slice_count DHT.slice_size data.
Proof.
  unfold DHT.entries_of. rewrite length_fmap. apply slices_length.
Qed.

Lemma entries_of_bounded (ver data : bytes) :
  length ver = 2%nat -> 3 < MAX_ENTRY_SIZE ->
  Forall (fun e => Py.len e <= MAX_ENTRY_SIZE - 1) (DHT.entries_of ver data).
Proof.
  intros Hver Hmax. unfold DHT.entries_of.
  apply Forall_fmap.
  eapply Forall_impl; [apply slices_bounded|].
  intros s Hs. cbn. unfold Py.len. rewrite length_app, Hver.
  unfold DHT.slice_size in Hs. lia.
Qed.

(** The chunks built by the loop of [publish_to_DHT] are [entries_of]. *)
Lemma loop_chunks (ver data : bytes) :
  3 < MAX_ENTRY_SIZE ->
  (fun i => ver ++ Py.slice data i (i + MAX_ENTRY_SIZE - 3)) <$>
    ((fun k : nat => Z.of_nat k * (MAX_ENTRY_SIZE - 3)) <$>
       seq 0 (DHT.slice_count DHT.slice_size data))
  = DHT.entries_of ver data.
Proof.
  intros Hmax. unfold DHT.entries_of.
  rewrite slices_as_fmap, <- !list_fmap_compose.
  apply list_fmap_ext. intros _ k _. cbn. f_equal.
  rewrite slice_nonneg by nia. unfold DHT.slice_size.
  f_equal; [f_equal; lia|]. f_equal. nia.
Qed.

(** With a version that fits in sixteen bits and a positive slice size,
    [publish_to_DHT] returns normally and has appended [entries_of]. *)
Lemma publish_to_DHT_ok (st : DHT.Storage) (key data ver : bytes) (n : Z) :
  3 < MAX_ENTRY_SIZE ->
  Py.pack_H native n = Ok ver ->
  DHT.publish_to_DHT key data n st
  = (Ok tt, DHT.append_entries key (DHT.entries_of ver data) st).
Proof.
  intros Hmax Hpack.
  destruct (pack_H_inv _ _ _ Hpack) as [_ Hlen].
  unfold DHT.publish_to_DHT, bind at 1, lift at 1. rewrite Hpack.
  unfold bind at 1, lift at 1.
  rewrite range_positive_step by lia.
  pose proof (for_each_store_value
                (fun i => ver ++ Py.slice data i (i + MAX_ENTRY_SIZE - 3)) key
                ((fun k : nat => Z.of_nat k * (MAX_ENTRY_SIZE - 3)) <$>
                   seq 0 (DHT.slice_count DHT.slice_size data))) as Hloop.
  rewrite loop_chunks in Hloop by assumption.
  apply Hloop.
  eapply Forall_impl; [apply entries_of_bounded; assumption|].
  cbn. intros; lia.
Qed.

Lemma publish_to_DHT_struct_error (st : DHT.Storage) (key data : bytes) (n : Z) :
  ~ 0 <= n <= 65535 ->
  DHT.publish_to_DHT key data n st = (Raise struct_error, st).
Proof.
  intros Hn. unfold DHT.publish_to_DHT, bind at 1, lift at 1.
  rewrite pack_H_raises by assumption. reflexivity.
Qed.

Lemma publish_to_DHT_zero_step (st : DHT.Storage) (key data ver : bytes) (n : Z) :
  MAX_ENTRY_SIZE = 3 ->
  Py.pack_H native n = Ok ver ->
  DHT.publish_to_DHT key data n st = (Raise ValueError, st).
Proof.
  intros Hmax Hpack. unfold DHT.publish_to_DHT, bind at 1, lift at 1.
  rewrite Hpack. unfold bind at 1, lift at 1. rewrite Hmax. reflexivity.
Qed.

Lemma publish_to_DHT_negative_step (st : DHT.Storage) (key data ver : bytes)
    (n : Z) :
  MAX_ENTRY_SIZE < 3 ->
  Py.pack_H native n = Ok ver ->
  DHT.publish_to_DHT key data n st = (Ok tt, st).
Proof.
  intros Hmax Hpack. unfold DHT.publish_to_DHT, bind at 1, lift at 1.
  rewrite Hpack. unfold bind at 1, lift at 1.
  rewrite range_negative_step by (unfold Py.len; lia). reflexivity.
Qed.

(** Whatever the arguments, [publish_to_DHT] only appends under [key],
    and what it appends fits in an entry; it never runs into the store's
    size check. *)
Lemma publish_to_DHT_cases (st : DHT.Storage) (key data : bytes) (n : Z) :
  exists (r : Result unit) (new : list bytes),
    DHT.publish_to_DHT key data n st = (r, DHT.append_entries key new st)
    /\ r <> Raise EntryTooLarge
    /\ Forall (fun e => Py.len e <= MAX_ENTRY_SIZE) new
    /\ (data = [] -> new = []).
Proof.
  destruct (decide (0 <= n <= 65535)) as [Hn|Hn].
  - destruct (pack_H_ok native n Hn) as [ver Hpack].
    destruct (Z_dec MAX_ENTRY_SIZE 3) as [[Hlt|Hgt]|Heq].
    + exists (Ok tt), []. rewrite (publish_to_DHT_negative_step _ _ _ ver) by assumption.
      repeat split; [discriminate|constructor].
    + exists (Ok tt), (DHT.entries_of ver data).
      rewrite (publish_to_DHT_ok _ _ _ ver) by (assumption || lia).
      repeat split; [discriminate| |].
      * eapply Forall_impl;
          [apply entries_of_bounded; [apply (pack_H_inv _ _ _ Hpack)|lia]|].
        cbn. intros; lia.
      * intros ->. apply entries_of_nil. lia.
    + exists (Raise ValueError), [].
      rewrite (publish_to_DHT_zero_step _ _ _ ver) by assumption.
      repeat split; [discriminate|constructor].
  - exists (Raise struct_error), [].
    rewrite publish_to_DHT_struct_error by assumption.
    repeat split; [discriminate|constructor].
Qed.

End PublishFacts.

(** ** Facts about reconstruction *)

Section FetchFacts.
Context `{Env}.











Lemma fetchLatest_nothing (rsv : nat) (st : DHT.Storage) (key : bytes) :
  DHT.get st key = [] -> DHT.fetchLatest rsv st key = None.
Proof. intros Hget. unfold DHT.fetchLatest. rewrite Hget. reflexivity. Qed.

End FetchFacts.

(** ** What is stored after a publication *)

Section RoundTrip.
Context `{Env}.

(** What is stored under [key] once a publication has returned. *)
Lemma get_after_publish (st : DHT.Storage) (key data ver : bytes) (n : Z) :
  3 < MAX_ENTRY_SIZE ->
  Py.pack_H native n = Ok ver ->
  DHT.get (snd (DHT.publish_to_DHT key data n st)) key
  = DHT.get st key ++ DHT.entries_of ver data.
Proof.
  intros Hmax Hpack.
  rewrite (publish_to_DHT_ok st key data ver n Hmax Hpack). cbn [snd].
  apply get_append_entries.
Qed.

End RoundTrip.

(** ** The properties of the specification: chunked publication *)

Section DHTClaims.
Context `{Env}.

(** C5, as amended. For every key, value and sixteen-bit version, with
    [MAX_ENTRY_SIZE > 3], [publish_to_DHT] returns normally; each raw
    entry it writes is the two-byte encoding of the version followed
    directly by a value slice, with no reserved byte in between; the
    entries are appended under the key in slice order, and no other key
    is touched. *)
Theorem publish_entry_layout (st : DHT.Storage) (key data : bytes) (n : Z) :
  3 < MAX_ENTRY_SIZE ->
  0 <= n <= 65535 ->
  exists ver : bytes,
    Py.pack_H native n = Ok ver
    /\ length ver = 2%nat
    /\ Py.unpack_H native ver = Ok n
    /\ fst (DHT.publish_to_DHT key data n st) = Ok tt
    /\ DHT.get (snd (DHT.publish_to_DHT key data n st)) key
       = DHT.get st key
         ++ ((fun s => ver ++ s) <$>
               DHT.slices (DHT.slice_count DHT.slice_size data)
                          DHT.slice_size data)
    /\ forall key', key <> key' ->
         snd (DHT.publish_to_DHT key data n st) !! key' = st !! key'.
Proof.
  intros Hmax Hn.
  destruct (pack_H_ok native n Hn) as [ver Hpack].
  exists ver. split; [exact Hpack|].
  split; [apply (pack_H_inv _ _ _ Hpack)|].
  split; [apply unpack_pack_H, Hpack|].
  rewrite (publish_to_DHT_ok st key data ver n Hmax Hpack). cbn [fst snd].
  split; [reflexivity|]. split.
  - apply get_append_entries.
  - intros key' Hne. apply lookup_append_entries_ne, Hne.
Qed.

(** C7. Whatever the value, the version and [MAX_ENTRY_SIZE], every raw
    entry that [publish_to_DHT] stores has at most [MAX_ENTRY_SIZE] bytes
    and the call never ends in [EntryTooLarge]; the store refuses every
    entry longer than [MAX_ENTRY_SIZE] with [EntryTooLarge], leaving the
    storage as it was, and accepts every other entry. *)
Theorem chunk_bound (st : DHT.Storage) (key data : bytes) (n : Z) :
  (exists new : list bytes,
      DHT.get (snd (DHT.publish_to_DHT key data n st)) key
      = DHT.get st key ++ new
      /\ Forall (fun e => Py.len e <= MAX_ENTRY_SIZE) new)
  /\ fst (DHT.publish_to_DHT key data n st) <> Raise EntryTooLarge
  /\ (forall entry : bytes,
        MAX_ENTRY_SIZE < Py.len entry ->
        DHT.store_value key entry st = (Raise EntryTooLarge, st))
  /\ (forall entry : bytes,
        Py.len entry <= MAX_ENTRY_SIZE ->
        fst (DHT.store_value key entry st) = Ok tt
        /\ DHT.get (snd (DHT.store_value key entry st)) key
           = DHT.get st key ++ [entry]).
Proof.
  destruct (publish_to_DHT_cases st key data n) as (r & new & Hpub & Hr & Hall & _).
  rewrite Hpub. cbn [fst snd]. split; [|split; [exact Hr|split]].
  - exists new. split; [apply get_append_entries|exact Hall].
  - intros entry. apply store_value_rejects.
  - intros entry Hle. rewrite (store_value_accepts _ _ _ Hle). cbn [fst snd].
    split; [reflexivity|apply get_append_entries].
Qed.

(** C10. For every key and version, publishing the empty value writes no
    chunk: the loop runs over an empty range and the storage is left as it
    was (the call returns normally when the version fits in sixteen bits
    and [MAX_ENTRY_SIZE] is not 3). Hence on a key without prior entries
    reconstruction afterwards yields the absent result, not the empty
    value. *)
Theorem publish_empty_value (rsv : nat) (st : DHT.Storage) (key : bytes) (n : Z) :
  snd (DHT.publish_to_DHT key [] n st) = st
  /\ (forall step, step <> 0 -> Py.range 0 (Py.len (@nil byte)) step = Ok [])
  /\ (0 <= n <= 65535 -> MAX_ENTRY_SIZE <> 3 ->
      fst (DHT.publish_to_DHT key [] n st) = Ok tt)
  /\ (DHT.get st key = [] ->
      DHT.fetchLatest rsv (snd (DHT.publish_to_DHT key [] n st)) key = None
      /\ DHT.fetchLatest rsv (snd (DHT.publish_to_DHT key [] n st)) key
         <> Some []).
Proof.
  assert (Hst : snd (DHT.publish_to_DHT key [] n st) = st).
  { destruct (publish_to_DHT_cases st key [] n) as (r & new & Hpub & _ & _ & Hnil).
    rewrite Hpub, (Hnil eq_refl). reflexivity. }
  split; [exact Hst|]. split; [|split].
  - intros step Hstep. unfold Py.range, Py.len. cbn [length].
    destruct (Z.eqb_spec step 0) as [|_]; [contradiction|].
    destruct (Z.ltb_spec 0 step).
    + rewrite (Z.div_small (Z.of_nat 0 - 0 + step - 1) step) by lia.
      reflexivity.
    + rewrite (Z.div_small (0 - Z.of_nat 0 - step - 1) (- step)) by lia.
      reflexivity.
  - intros Hn Hmax. destruct (pack_H_ok native n Hn) as [ver Hpack].
    destruct (Z_lt_le_dec MAX_ENTRY_SIZE 3) as [Hlt|Hge].
    + rewrite (publish_to_DHT_negative_step _ _ _ ver) by assumption.
      reflexivity.
    + rewrite (publish_to_DHT_ok _ _ _ ver) by (assumption || lia).
      reflexivity.
  - intros Hget. rewrite Hst, (fetchLatest_nothing rsv st key Hget).
    split; [reflexivity|discriminate].
Qed.

End DHTClaims.

(** ** The Lamport clock of an overlay *)

Section ClockFacts.
Context {Key Address Sub : Type}.
Implicit Types o : Overlay.Overlay Key Address Sub.

Lemma update_global_time_eq (x : Z) o :
  Overlay.update_global_time x o
  = (Ok tt,
     if Overlay.current o <? x
     then Overlay.set_my_peer (Overlay.update_clock x (Overlay.my_peer o)) o
     else o).
Proof.
  unfold Overlay.update_global_time, bind, Overlay.global_time, ret.
  fold (Overlay.current o).
  destruct (Overlay.current o <? x); reflexivity.
Qed.

Lemma current_update (x : Z) o :
  Overlay.current (snd (Overlay.update_global_time x o))
  = Z.max (Overlay.current o) x.
Proof.
  rewrite update_global_time_eq. cbn [snd].
  destruct (Z.ltb_spec (Overlay.current o) x).
  - reflexivity.
  - symmetry. apply Z.max_l. lia.
Qed.

Lemma update_noop (x : Z) o :
  x <= Overlay.current o -> snd (Overlay.update_global_time x o) = o.
Proof.
  intros Hle. rewrite update_global_time_eq. cbn [snd].
  destruct (Z.ltb_spec (Overlay.current o) x); [lia|reflexivity].
Qed.

(** [claim_global_time] moves the clock one up and returns the new
    value. *)
Lemma claim_global_time_run o :
  Overlay.claim_global_time o
  = (Ok (Overlay.current o + 1),
     Overlay.set_my_peer
       (Overlay.update_clock (Overlay.current o + 1) (Overlay.my_peer o)) o).
Proof.
  unfold Overlay.claim_global_time, bind, Overlay.global_time.
  rewrite update_global_time_eq.
  unfold Overlay.current, Overlay.get_lamport_timestamp.
  destruct (Z.ltb_spec (Overlay._lamport_timestamp (Overlay.my_peer o))
              (Overlay._lamport_timestamp (Overlay.my_peer o) + 1)); [|lia].
  cbn. do 2 f_equal. lia.
Qed.

Lemma claim_global_time_eq o :
  Overlay.claim_global_time o
  = (Ok (Overlay.current (snd (Overlay.claim_global_time o))),
     snd (Overlay.claim_global_time o))
  /\ Overlay.current (snd (Overlay.claim_global_time o))
     = Overlay.current o + 1.
Proof.
  rewrite claim_global_time_run. cbn [snd].
  assert (Hc : Overlay.current
                 (Overlay.set_my_peer
                    (Overlay.update_clock (Overlay.current o + 1)
                       (Overlay.my_peer o)) o)
               = Overlay.current o + 1).
  { unfold Overlay.current, Overlay.get_lamport_timestamp. cbn. lia. }
  rewrite Hc. split; reflexivity.
Qed.

Lemma do_call_ge (c : Overlay.clock_call) o :
  Overlay.current o <= Overlay.current (Overlay.do_call c o).
Proof.
  destruct c as [|x]; cbn [Overlay.do_call].
  - destruct (claim_global_time_eq o) as [_ ->]. lia.
  - rewrite current_update. lia.
Qed.

Lemma held_ge (cs : list Overlay.clock_call) o :
  Forall (fun t => Overlay.current o <= t) (Overlay.held cs o).
Proof.
  revert o. induction cs as [|c cs IH]; intros o; cbn [Overlay.held].
  - constructor.
  - pose proof (do_call_ge c o) as Hc. constructor; [exact Hc|].
    eapply Forall_impl; [apply IH|]. cbn. intros; lia.
Qed.

(** C8. From any clock state and for any finite run of
    [claim_global_time()] and [update_global_time(x)] calls, the clock
    values held, starting with the initial one, are non-decreasing: each
    is at most every later one. [claim_global_time] returns the value held
    after it, and right after [update_global_time(x)] the clock is at
    least [x]. *)
Theorem clock_monotone (cs : list Overlay.clock_call) o :
  StronglySorted Z.le (Overlay.current o :: Overlay.held cs o)
  /\ Overlay.claim_global_time o
     = (Ok (Overlay.current (Overlay.do_call Overlay.Claim o)),
        Overlay.do_call Overlay.Claim o)
  /\ forall x : Z,
       Overlay.update_global_time x o
       = (Ok tt, Overlay.do_call (Overlay.Update x) o)
       /\ x <= Overlay.current (Overlay.do_call (Overlay.Update x) o).
Proof.
  split; [|split].
  - revert o. induction cs as [|c cs IH]; intros o.
    + repeat constructor.
    + constructor; [apply IH|]. apply (held_ge (c :: cs) o).
  - apply claim_global_time_eq.
  - intros x. cbn [Overlay.do_call]. split.
    + rewrite update_global_time_eq. reflexivity.
    + rewrite current_update. lia.
Qed.

(** C9. For every remote value [x] and every clock value,
    [update_global_time(x)] returns normally and sets the clock to the
    maximum of the two, touching nothing else; the overlay is left as it
    was when [x] is not larger than the clock; and a second call with the
    same [x] changes nothing more. *)
Theorem update_global_time_max (x : Z) o :
  let o' := snd (Overlay.update_global_time x o) in
  Overlay.update_global_time x o = (Ok tt, o')
  /\ Overlay.current o' = Z.max (Overlay.current o) x
  /\ (x <= Overlay.current o -> o' = o)
  /\ Overlay.update_global_time x o' = (Ok tt, o')
  /\ Overlay.master_peer o' = Overlay.master_peer o
  /\ Overlay.sub o' = Overlay.sub o
  /\ Overlay.key (Overlay.my_peer o') = Overlay.key (Overlay.my_peer o)
  /\ Overlay.address (Overlay.my_peer o') = Overlay.address (Overlay.my_peer o).
Proof.
  intros o'. subst o'.
  split; [rewrite update_global_time_eq; reflexivity|].
  split; [apply current_update|].
  split; [apply update_noop|].
  split.
  - rewrite (update_global_time_eq x (snd _)).
    rewrite current_update.
    destruct (Z.ltb_spec (Z.max (Overlay.current o) x) x); [lia|reflexivity].
  - rewrite update_global_time_eq. cbn [snd].
    destruct (Overlay.current o <? x); repeat split; reflexivity.
Qed.

End ClockFacts.

(** ** Packet ingestion *)

Section PacketFacts.
Context {Key Address Sub : Type} `{Hm : Overlay.Methods Key Address Sub}.
Implicit Types o : Overlay.Overlay Key Address Sub.

(** A packet that splits and whose key parses is handed to [on_data]
    together with a new peer for the sender. *)
Lemma on_packet_dispatches (source_address : Address) (data key_bin rest : bytes)
    (k : Key) o :
  Overlay.split_key_data data = Ok (key_bin, rest) ->
  Overlay.key_from_public_bin key_bin = Ok k ->
  Overlay.on_packet (source_address, data) o
  = Overlay.on_data (Overlay.new_Peer k source_address) rest o.
Proof.
  intros Hsplit Hkey. unfold Overlay.on_packet, bind at 1, lift at 1.
  rewrite Hsplit. unfold bind at 1, lift at 1. rewrite Hkey. reflexivity.
Qed.

(** C4, as amended. [on_packet] has no exception handler: for every
    inbound packet whose bytes [split_key_data] refuses, or whose identity
    bytes the key parser refuses, [on_data] is not called, the overlay is
    left as it was, and the exception raised propagates to the caller of
    [on_packet]. *)
Theorem on_packet_propagates (source_address : Address) (data : bytes)
    (e : exn) o :
  (Overlay.split_key_data data = Raise e
   \/ exists key_bin rest,
       Overlay.split_key_data data = Ok (key_bin, rest)
       /\ Overlay.key_from_public_bin key_bin = Raise e) ->
  Overlay.on_packet (source_address, data) o = (Raise e, o).
Proof.
  intros [Hsplit|(key_bin & rest & Hsplit & Hkey)];
    unfold Overlay.on_packet, bind at 1, lift at 1; rewrite Hsplit.
  - reflexivity.
  - unfold bind at 1, lift at 1. rewrite Hkey. reflexivity.
Qed.

End PacketFacts.

(** ** Concrete runs *)

Section Runs.
Import Examples.

Example pack_little : Py.pack_H Py.little 4536 = Ok [Byte.xb8; Byte.x11].
Proof. reflexivity. Qed.

Example pack_big : Py.pack_H Py.big 4536 = Ok [Byte.x11; Byte.xb8].
Proof. reflexivity. Qed.

Example range_120 : Py.range 0 120 47 = Ok [0; 47; 94].
Proof. reflexivity. Qed.

Example lengths_120 :
  length <$> DHT.get (published value120 4536) key0 = [49; 49; 28]%nat.
Proof. vm_compute. reflexivity. Qed.

(** C5 fails as stated: the one entry written for the one-byte value [A]
    at version 1 is the two version bytes followed by [A]; it has three
    bytes, and there is no reserved byte between the version and the
    slice. *)
Lemma entry_layout_counterexample :
  DHT.get (published [Byte.x41] 1) key0 = [[Byte.x01; Byte.x00; Byte.x41]]
  /\ Py.pack_H Py.little 1 = Ok [Byte.x01; Byte.x00]
  /\ ~ exists r : byte,
        DHT.get (published [Byte.x41] 1) key0
        = [[Byte.x01; Byte.x00] ++ [r] ++ [Byte.x41]].
Proof.
  assert (Hget : DHT.get (published [Byte.x41] 1) key0
                 = [[Byte.x01; Byte.x00; Byte.x41]])
    by (vm_compute; reflexivity).
  rewrite Hget. repeat split. intros [r Hr]. discriminate Hr.
Qed.

Lemma publish_entry_layout_witness :
  exists ver : bytes,
    Py.pack_H Py.little 4536 = Ok ver
    /\ DHT.get (published value120 4536) key0
       = (fun s => ver ++ s) <$> DHT.slices 3 47 value120.
Proof.
  destruct (@publish_entry_layout env50 ∅ key0 value120 4536)
    as (ver & Hpack & _ & _ & _ & Hget & _).
  - vm_compute. reflexivity.
  - lia.
  - exists ver. split; [exact Hpack|exact Hget].
Defined.

Lemma chunk_bound_witness :
  @DHT.store_value env50 key0 (value120) ∅ = (Raise EntryTooLarge, ∅)
  /\ fst (@DHT.store_value env50 key0 [Byte.x41] ∅) = Ok tt.
Proof.
  destruct (@chunk_bound env50 ∅ key0 value120 4536) as (_ & _ & Hrej & Hacc).
  split.
  - apply Hrej. vm_compute. reflexivity.
  - apply Hacc. vm_compute. discriminate.
Defined.

Lemma publish_empty_value_witness :
  @DHT.fetchLatest env50 DHT.spec_reserved
    (snd (@DHT.publish_to_DHT env50 key0 [] 4536 ∅)) key0 = None
  /\ fst (@DHT.publish_to_DHT env50 key0 [] 4536 ∅) = Ok tt.
Proof.
  destruct (@publish_empty_value env50 DHT.spec_reserved ∅ key0 4536)
    as (_ & _ & Hok & Hfetch).
  split.
  - apply Hfetch. reflexivity.
  - apply Hok; [lia|]. vm_compute. discriminate.
Defined.

(** C4 fails as stated: a packet too short to be split, and a packet
    whose key is refused, both make [on_packet] raise to its caller. *)
Lemma on_packet_counterexample :
  @Overlay.on_packet _ _ _ demo (8091, [Byte.x01; Byte.x02]) (demo_overlay 0)
  = (Raise MalformedPacket, demo_overlay 0)
  /\ @Overlay.on_packet _ _ _ demo
       (8091, [Byte.x00; Byte.x02; Byte.x03; Byte.x04; Byte.x41])
       (demo_overlay 0)
     = (Raise InvalidKey, demo_overlay 0)
  /\ fst (@Overlay.on_packet _ _ _ demo (8091, [Byte.x01; Byte.x02])
            (demo_overlay 0)) <> Ok tt.
Proof. repeat split. discriminate. Qed.

Lemma on_packet_propagates_witness :
  @Overlay.on_packet _ _ _ demo (8091, [Byte.x01; Byte.x02]) (demo_overlay 0)
  = (Raise MalformedPacket, demo_overlay 0).
Proof.
  apply (@on_packet_propagates _ _ _ demo 8091 [Byte.x01; Byte.x02]
           MalformedPacket (demo_overlay 0)).
  left. reflexivity.
Defined.

Example on_packet_delivers :
  @Overlay.on_packet _ _ _ demo
    (8091, [Byte.x01; Byte.x02; Byte.x03; Byte.x04; Byte.x41])
    (demo_overlay 0)
  = (Ok tt,
     Overlay.mkOverlay (Overlay.master_peer (demo_overlay 0))
       (Overlay.my_peer (demo_overlay 0)) [(8091, [Byte.x41])]).
Proof. reflexivity. Qed.

Example clock_run :
  Overlay.held [Overlay.Claim; Overlay.Update 10; Overlay.Update 4;
                Overlay.Claim] (demo_overlay 2)
  = [3; 10; 10; 11].
Proof. reflexivity. Qed.

Lemma update_global_time_max_witness :
  snd (Overlay.update_global_time 4 (demo_overlay 10)) = demo_overlay 10
  /\ Overlay.current (snd (Overlay.update_global_time 12 (demo_overlay 10)))
     = 12.
Proof.
  split.
  - apply (update_global_time_max 4 (demo_overlay 10)). cbn. lia.
  - apply (update_global_time_max 12 (demo_overlay 10)).
Defined.

End Runs.

(** ** More on [publish_to_DHT]: failures, framing and composition *)

Section PublishMore.
Context `{Env}.

(** What a call writes and how it ends depend on the value, the version
    and the platform only, not on the storage it starts from. *)
Lemma publish_to_DHT_uniform (key data : bytes) (n : Z) :
  exists (r : Result unit) (new : list bytes),
    forall st : DHT.Storage,
      DHT.publish_to_DHT key data n st = (r, DHT.append_entries key new st).
Proof.
  destruct (decide (0 <= n <= 65535)) as [Hn|Hn].
  - destruct (pack_H_ok native n Hn) as [ver Hpack].
    destruct (Z_dec MAX_ENTRY_SIZE 3) as [[Hlt|Hgt]|Heq].
    + exists (Ok tt), []. intros st.
      apply (publish_to_DHT_negative_step st key data ver n Hlt Hpack).
    + exists (Ok tt), (DHT.entries_of ver data). intros st.
      apply publish_to_DHT_ok; [lia|exact Hpack].
    + exists (Raise ValueError), []. intros st.
      apply (publish_to_DHT_zero_step st key data ver n Heq Hpack).
  - exists (Raise struct_error), []. intros st.
    apply publish_to_DHT_struct_error, Hn.
Qed.

Lemma append_entries_commute (st : DHT.Storage) (k1 k2 : bytes)
    (es1 es2 : list bytes) :
  k1 <> k2 ->
  DHT.append_entries k2 es2 (DHT.append_entries k1 es1 st)
  = DHT.append_entries k1 es1 (DHT.append_entries k2 es2 st).
Proof.
  intros Hne.
  destruct es1 as [|e1 es1]; [reflexivity|].
  destruct es2 as [|e2 es2]; [reflexivity|].
  cbn [DHT.append_entries]. unfold DHT.get.
  rewrite (lookup_insert_ne st k1 k2) by exact Hne.
  rewrite (lookup_insert_ne st k2 k1) by (intros ->; apply Hne; reflexivity).
  apply insert_insert_ne. intros ->. apply Hne. reflexivity.
Qed.

(** X1. [publish_to_DHT] raises [struct.error] exactly when the version
    does not fit an unsigned short, and then before anything is written:
    the storage is left as it was, whatever the value and
    [MAX_ENTRY_SIZE]. *)
Theorem publish_version_range (st : DHT.Storage) (key data : bytes) (n : Z) :
  (~ 0 <= n <= 65535 ->
   DHT.publish_to_DHT key data n st = (Raise struct_error, st))
  /\ (0 <= n <= 65535 ->
      fst (DHT.publish_to_DHT key data n st) <> Raise struct_error).
Proof.
  split.
  - apply publish_to_DHT_struct_error.
  - intros Hn. destruct (pack_H_ok native n Hn) as [ver Hpack].
    destruct (Z_dec MAX_ENTRY_SIZE 3) as [[Hlt|Hgt]|Heq].
    + rewrite (publish_to_DHT_negative_step st key data ver n Hlt Hpack).
      discriminate.
    + rewrite (publish_to_DHT_ok st key data ver n) by (lia || exact Hpack).
      discriminate.
    + rewrite (publish_to_DHT_zero_step st key data ver n Heq Hpack).
      discriminate.
Qed.

(** X2. When [MAX_ENTRY_SIZE] is at most 3 nothing is ever stored, whatever
    the value: with [MAX_ENTRY_SIZE = 3] the zero step makes [range] raise
    [ValueError], and below 3 the negative step gives an empty loop, so the
    call returns normally and the value is silently left unpublished. *)
Theorem publish_degenerate_slice_size (st : DHT.Storage) (key data : bytes)
    (n : Z) :
  0 <= n <= 65535 ->
  MAX_ENTRY_SIZE <= 3 ->
  DHT.publish_to_DHT key data n st
  = (if MAX_ENTRY_SIZE =? 3 then Raise ValueError else Ok tt, st).
Proof.
  intros Hn Hmax. destruct (pack_H_ok native n Hn) as [ver Hpack].
  destruct (Z.eqb_spec MAX_ENTRY_SIZE 3) as [Heq|Hne].
  - apply (publish_to_DHT_zero_step st key data ver n Heq Hpack).
  - apply (publish_to_DHT_negative_step st key data ver n); [lia|exact Hpack].
Qed.

(** X3. Whatever its arguments and however it ends, [publish_to_DHT] only
    appends under its own key: the entries that were under the key stay,
    in order, at the front of the list, and the entry list of every other
    key is the one it was. *)
Theorem publish_only_appends (st : DHT.Storage) (key data : bytes) (n : Z) :
  DHT.get st key `prefix_of` DHT.get (snd (DHT.publish_to_DHT key data n st)) key
  /\ forall key' : bytes,
       key <> key' ->
       snd (DHT.publish_to_DHT key data n st) !! key' = st !! key'.
Proof.
  destruct (publish_to_DHT_uniform key data n) as (r & new & Hpub).
  rewrite Hpub. cbn [snd]. split.
  - rewrite get_append_entries. apply prefix_app_r. reflexivity.
  - intros key' Hne. apply lookup_append_entries_ne, Hne.
Qed.

(** X4. Two publications under the same key, one after the other, with
    versions that fit and [MAX_ENTRY_SIZE > 3]: both return normally and
    the key holds what it held, then the entries of the first value, then
    those of the second, so the number of raw entries grows by the two
    slice counts. Nothing is merged or replaced, also when the two calls
    publish the same value at the same version. *)
Theorem publish_twice_same_key (st : DHT.Storage) (key v1 v2 : bytes)
    (n1 n2 : Z) :
  3 < MAX_ENTRY_SIZE ->
  0 <= n1 <= 65535 ->
  0 <= n2 <= 65535 ->
  let st1 := snd (DHT.publish_to_DHT key v1 n1 st) in
  let st2 := snd (DHT.publish_to_DHT key v2 n2 st1) in
  exists ver1 ver2 : bytes,
    Py.pack_H native n1 = Ok ver1
    /\ Py.pack_H native n2 = Ok ver2
    /\ DHT.publish_to_DHT key v1 n1 st = (Ok tt, st1)
    /\ DHT.publish_to_DHT key v2 n2 st1 = (Ok tt, st2)
    /\ DHT.get st2 key
       = DHT.get st key ++ DHT.entries_of ver1 v1 ++ DHT.entries_of ver2 v2
    /\ length (DHT.get st2 key)
       = (length (DHT.get st key)
          + DHT.slice_count DHT.slice_size v1
          + DHT.slice_count DHT.slice_size v2)%nat.
Proof.
  intros Hmax Hn1 Hn2 st1 st2.
  destruct (pack_H_ok native n1 Hn1) as [ver1 Hpack1].
  destruct (pack_H_ok native n2 Hn2) as [ver2 Hpack2].
  exists ver1, ver2.
  assert (H1 : DHT.publish_to_DHT key v1 n1 st
               = (Ok tt, DHT.append_entries key (DHT.entries_of ver1 v1) st))
    by (apply publish_to_DHT_ok; assumption).
  assert (Hst1 : st1 = DHT.append_entries key (DHT.entries_of ver1 v1) st)
    by (unfold st1; rewrite H1; reflexivity).
  assert (H2 : DHT.publish_to_DHT key v2 n2 st1
               = (Ok tt, DHT.append_entries key (DHT.entries_of ver2 v2) st1))
    by (apply publish_to_DHT_ok; assumption).
  assert (Hst2 : st2 = DHT.append_entries key (DHT.entries_of ver2 v2) st1)
    by (unfold st2; rewrite H2; reflexivity).
  assert (Hget : DHT.get st2 key
                 = DHT.get st key ++ DHT.entries_of ver1 v1
                     ++ DHT.entries_of ver2 v2).
  { rewrite Hst2, Hst1, !get_append_entries, <- app_assoc. reflexivity. }
  repeat split; try assumption.
  - rewrite H1, Hst1. reflexivity.
  - rewrite H2, Hst2. reflexivity.
  - rewrite Hget, !length_app, !entries_of_length. lia.
Qed.

(** X5. Publications under different keys do not interfere: whatever the
    values and versions, and however the two calls end, running them in
    either order leaves the same storage, and each call ends the way it
    ends when it runs first. *)
Theorem publish_commutes (st : DHT.Storage) (k1 k2 d1 d2 : bytes) (n1 n2 : Z) :
  k1 <> k2 ->
  snd (DHT.publish_to_DHT k2 d2 n2 (snd (DHT.publish_to_DHT k1 d1 n1 st)))
  = snd (DHT.publish_to_DHT k1 d1 n1 (snd (DHT.publish_to_DHT k2 d2 n2 st)))
  /\ fst (DHT.publish_to_DHT k2 d2 n2 (snd (DHT.publish_to_DHT k1 d1 n1 st)))
     = fst (DHT.publish_to_DHT k2 d2 n2 st)
  /\ fst (DHT.publish_to_DHT k1 d1 n1 (snd (DHT.publish_to_DHT k2 d2 n2 st)))
     = fst (DHT.publish_to_DHT k1 d1 n1 st).
Proof.
  intros Hne.
  destruct (publish_to_DHT_uniform k1 d1 n1) as (r1 & new1 & Hpub1).
  destruct (publish_to_DHT_uniform k2 d2 n2) as (r2 & new2 & Hpub2).
  rewrite !Hpub1, !Hpub2. cbn [fst snd]. rewrite ?Hpub1, ?Hpub2. cbn [fst snd].
  split; [|split; reflexivity].
  apply append_entries_commute, Hne.
Qed.

(** X18. A publication that raises has written nothing, and the only
    exceptions it can end in are [struct.error] (a version that does not
    fit) and [ValueError] (a zero slice size): no call leaves a partly
    written value behind. *)
Theorem publish_raises_writes_nothing (st : DHT.Storage) (key data : bytes)
    (n : Z) (e : exn) :
  fst (DHT.publish_to_DHT key data n st) = Raise e ->
  snd (DHT.publish_to_DHT key data n st) = st
  /\ (e = struct_error \/ e = ValueError).
Proof.
  destruct (decide (0 <= n <= 65535)) as [Hn|Hn].
  - destruct (pack_H_ok native n Hn) as [ver Hpack].
    destruct (Z_dec MAX_ENTRY_SIZE 3) as [[Hlt|Hgt]|Heq].
    + rewrite (publish_to_DHT_negative_step st key data ver n Hlt Hpack).
      discriminate.
    + rewrite (publish_to_DHT_ok st key data ver n) by (lia || exact Hpack).
      discriminate.
    + rewrite (publish_to_DHT_zero_step st key data ver n Heq Hpack).
      cbn [fst snd]. intros [= <-]. split; [reflexivity|right; reflexivity].
  - rewrite publish_to_DHT_struct_error by exact Hn.
    cbn [fst snd]. intros [= <-]. split; [reflexivity|left; reflexivity].
Qed.

End PublishMore.

(** ** More on [publish_to_DHT]: what the written entries look like *)

Section EntriesMore.
Context `{Env}.

(** Every entry written on an empty storage is the packed version followed
    by some bytes of the value. *)
Lemma written_entry_shape (key data e : bytes) (n : Z) :
  e ∈ DHT.get (snd (DHT.publish_to_DHT key data n ∅)) key ->
  exists ver s : bytes, Py.pack_H native n = Ok ver /\ e = ver ++ s.
Proof.
  destruct (decide (0 <= n <= 65535)) as [Hn|Hn].
  - destruct (pack_H_ok native n Hn) as [ver Hpack].
    destruct (Z_dec MAX_ENTRY_SIZE 3) as [[Hlt|Hgt]|Heq].
    + rewrite (publish_to_DHT_negative_step ∅ key data ver n Hlt Hpack).
      cbn. intros Hin. inversion Hin.
    + rewrite (publish_to_DHT_ok ∅ key data ver n) by (lia || exact Hpack).
      cbn [snd]. rewrite get_append_entries. cbn [app DHT.get].
      unfold DHT.get. rewrite lookup_empty. cbn [default app].
      unfold DHT.entries_of. intros Hin.
      apply list_elem_of_fmap in Hin as (s & -> & _).
      exists ver, s. split; [exact Hpack|reflexivity].
    + rewrite (publish_to_DHT_zero_step ∅ key data ver n Heq Hpack).
      cbn. intros Hin. inversion Hin.
  - rewrite publish_to_DHT_struct_error by exact Hn.
    cbn. intros Hin. inversion Hin.
Qed.

Lemma drop_header_entries_of (ver data : bytes) :
  length ver = 2%nat ->
  drop 2 <$> DHT.entries_of ver data
  = DHT.slices (DHT.slice_count DHT.slice_size data) DHT.slice_size data.
Proof.
  intros Hlen. unfold DHT.entries_of.
  rewrite <- list_fmap_compose. rewrite <- list_fmap_id.
  apply list_fmap_ext. intros _ s _. cbn.
  apply drop_app_length'. symmetry. exact Hlen.
Qed.

(** Without their two version bytes, the entries of a value glued together
    are the value. *)
Lemma concat_drop_header (ver data : bytes) :
  3 < MAX_ENTRY_SIZE ->
  length ver = 2%nat ->
  concat (drop 2 <$> DHT.entries_of ver data) = data.
Proof.
  intros Hmax Hlen. rewrite (drop_header_entries_of ver data Hlen).
  apply concat_slices, slice_count_enough. unfold DHT.slice_size. lia.
Qed.

Lemma entries_of_nil_iff (ver data : bytes) :
  3 < MAX_ENTRY_SIZE -> DHT.entries_of ver data = [] <-> data = [].
Proof.
  intros Hmax. split.
  - intros Hnil. destruct data as [|b data]; [reflexivity|].
    apply (f_equal length) in Hnil. rewrite entries_of_length in Hnil.
    pose proof (slice_count_pos DHT.slice_size (b :: data)) as Hpos.
    cbn [length] in Hnil. rewrite Hnil in Hpos.
    exfalso. apply (Nat.lt_irrefl 0), Hpos; [unfold DHT.slice_size; lia|discriminate].
  - intros ->. apply entries_of_nil, Hmax.
Qed.

(** The sizes of the entries of a value: slice [k] is there, with a full
    slice when it is not the last. *)
Lemma entries_of_lookup (ver data e : bytes) (k : nat) :
  3 < MAX_ENTRY_SIZE ->
  length ver = 2%nat ->
  DHT.entries_of ver data !! k = Some e ->
  3 <= Py.len e <= MAX_ENTRY_SIZE - 1
  /\ ((S k < length (DHT.entries_of ver data))%nat ->
      Py.len e = MAX_ENTRY_SIZE - 1).
Proof.
  intros Hmax Hlen Hk.
  assert (Hsize : (0 < DHT.slice_size)%nat) by (unfold DHT.slice_size; lia).
  pose proof (lookup_lt_Some _ _ _ Hk) as Hlt.
  rewrite entries_of_length in *.
  unfold DHT.entries_of in Hk. rewrite list_lookup_fmap in Hk.
  destruct (slices_lookup (DHT.slice_count DHT.slice_size data)
              DHT.slice_size data k Hlt) as (s & Hs & Hslen).
  rewrite Hs in Hk. cbn in Hk. injection Hk as <-.
  unfold Py.len. rewrite length_app, Hlen, Hslen.
  destruct (slice_count_tight DHT.slice_size data Hsize) as [Htight|Hzero];
    [|lia].
  unfold DHT.slice_size in *. split; [split|intros Hnext]; nia.
Qed.

(** X6. Every raw entry that [publish_to_DHT] writes at version [n] starts
    with two bytes that [struct.unpack("H", _)] reads back as [n]; hence
    entries written at two different versions are never equal, whatever
    the values: generations under one key cannot be confused. *)
Theorem published_entries_tagged (key d1 d2 : bytes) (n1 n2 : Z) :
  (forall e : bytes,
      e ∈ DHT.get (snd (DHT.publish_to_DHT key d1 n1 ∅)) key ->
      Py.unpack_H native (take 2 e) = Ok n1)
  /\ (n1 <> n2 ->
      forall e : bytes,
        e ∈ DHT.get (snd (DHT.publish_to_DHT key d1 n1 ∅)) key ->
        e ∉ DHT.get (snd (DHT.publish_to_DHT key d2 n2 ∅)) key).
Proof.
  assert (Htag : forall d n e,
             e ∈ DHT.get (snd (DHT.publish_to_DHT key d n ∅)) key ->
             Py.unpack_H native (take 2 e) = Ok n).
  { intros d n e Hin.
    destruct (written_entry_shape key d e n Hin) as (ver & s & Hpack & ->).
    destruct (pack_H_inv _ _ _ Hpack) as [_ Hlen].
    rewrite (take_app_length' ver s 2) by (symmetry; exact Hlen).
    apply unpack_pack_H, Hpack. }
  split; [apply Htag|].
  intros Hne e Hin1 Hin2.
  apply Htag in Hin1. apply Htag in Hin2.
  rewrite Hin1 in Hin2. injection Hin2 as Heq. contradiction.
Qed.

(** X7. The storage after a publication determines the value: with
    versions that fit and [MAX_ENTRY_SIZE > 3], two publications under the
    same key on the same storage that leave the same storage published the
    same value. *)
Theorem publish_injective (st : DHT.Storage) (key d1 d2 : bytes) (n1 n2 : Z) :
  3 < MAX_ENTRY_SIZE ->
  0 <= n1 <= 65535 ->
  0 <= n2 <= 65535 ->
  snd (DHT.publish_to_DHT key d1 n1 st) = snd (DHT.publish_to_DHT key d2 n2 st) ->
  d1 = d2.
Proof.
  intros Hmax Hn1 Hn2 Hsame.
  destruct (pack_H_ok native n1 Hn1) as [ver1 Hpack1].
  destruct (pack_H_ok native n2 Hn2) as [ver2 Hpack2].
  apply (f_equal (fun s => DHT.get s key)) in Hsame.
  rewrite (get_after_publish st key d1 ver1 n1 Hmax Hpack1) in Hsame.
  rewrite (get_after_publish st key d2 ver2 n2 Hmax Hpack2) in Hsame.
  apply app_inv_head in Hsame.
  apply (f_equal (fun es => concat (drop 2 <$> es))) in Hsame.
  rewrite !concat_drop_header in Hsame
    by (exact Hmax || apply (pack_H_inv _ _ _ Hpack1)
        || apply (pack_H_inv _ _ _ Hpack2)).
  exact Hsame.
Qed.

(** X8. With a version that fits and [MAX_ENTRY_SIZE > 3], every raw entry
    written has at least 3 and at most [MAX_ENTRY_SIZE - 1] bytes: no entry
    is a bare header, and none reaches [MAX_ENTRY_SIZE], as the slices
    leave room for three bytes while the header takes two. Every entry but
    the last written has exactly [MAX_ENTRY_SIZE - 1] bytes. *)
Theorem published_entry_sizes (st : DHT.Storage) (key data : bytes) (n : Z) :
  3 < MAX_ENTRY_SIZE ->
  0 <= n <= 65535 ->
  exists new : list bytes,
    DHT.get (snd (DHT.publish_to_DHT key data n st)) key = DHT.get st key ++ new
    /\ forall (k : nat) (e : bytes),
         new !! k = Some e ->
         3 <= Py.len e <= MAX_ENTRY_SIZE - 1
         /\ ((S k < length new)%nat -> Py.len e = MAX_ENTRY_SIZE - 1).
Proof.
  intros Hmax Hn. destruct (pack_H_ok native n Hn) as [ver Hpack].
  exists (DHT.entries_of ver data). split.
  - apply get_after_publish; assumption.
  - intros k e Hk.
    apply (entries_of_lookup ver data e k Hmax (proj2 (pack_H_inv _ _ _ Hpack)) Hk).
Qed.

(** X9. With a version that fits and [MAX_ENTRY_SIZE > 3], a publication
    leaves the entry list of its key as it was exactly when the value is
    empty; after publishing a non-empty value there is at least one chunk
    under the key. *)
Theorem publish_changes_iff_nonempty (st : DHT.Storage) (key data : bytes)
    (n : Z) :
  3 < MAX_ENTRY_SIZE ->
  0 <= n <= 65535 ->
  (DHT.get (snd (DHT.publish_to_DHT key data n st)) key = DHT.get st key
   <-> data = [])
  /\ (data <> [] -> DHT.get (snd (DHT.publish_to_DHT key data n st)) key <> []).
Proof.
  intros Hmax Hn. destruct (pack_H_ok native n Hn) as [ver Hpack].
  rewrite (get_after_publish st key data ver n Hmax Hpack).
  pose proof (entries_of_nil_iff ver data Hmax) as Hiff.
  split; [split|].
  - intros Heq. apply Hiff.
    rewrite <- (app_nil_r (DHT.get st key)) in Heq at 2.
    apply app_inv_head in Heq. exact Heq.
  - intros Hd. apply Hiff in Hd. rewrite Hd, app_nil_r. reflexivity.
  - intros Hd Hnil. apply app_eq_nil in Hnil as [_ Hnil].
    apply Hd, Hiff, Hnil.
Qed.

End EntriesMore.

(** ** More on the Lamport clock: claims, runs and reordering *)

Section ClockMore.
Context {Key Address Sub : Type}.
Implicit Types o : Overlay.Overlay Key Address Sub.

Lemma do_call_update (x : Z) o :
  Overlay.do_call (Overlay.Update x) o
  = if Overlay.current o <? x
    then Overlay.set_my_peer (Overlay.update_clock x (Overlay.my_peer o)) o
    else o.
Proof. cbn [Overlay.do_call]. rewrite update_global_time_eq. reflexivity. Qed.

Lemma do_call_claim o :
  Overlay.do_call Overlay.Claim o
  = Overlay.set_my_peer
      (Overlay.update_clock (Overlay.current o + 1) (Overlay.my_peer o)) o.
Proof. cbn [Overlay.do_call]. rewrite claim_global_time_run. reflexivity. Qed.

Lemma current_set_my_peer (t : Z) o :
  Overlay.current
    (Overlay.set_my_peer (Overlay.update_clock t (Overlay.my_peer o)) o)
  = Z.max (Overlay.current o) t.
Proof. reflexivity. Qed.

Lemma current_claim o :
  Overlay.current (Overlay.do_call Overlay.Claim o) = Overlay.current o + 1.
Proof. rewrite do_call_claim, current_set_my_peer. lia. Qed.

Lemma run_cons (c : Overlay.clock_call) (cs : list Overlay.clock_call) o :
  Overlay.run (c :: cs) o = Overlay.run cs (Overlay.do_call c o).
Proof. reflexivity. Qed.

(** Every value held during a run, and the initial one, is at most the
    value held at its end. *)
Lemma held_le_final (cs : list Overlay.clock_call) o :
  Forall (fun t => t <= Overlay.current (Overlay.run cs o))
         (Overlay.current o :: Overlay.held cs o).
Proof.
  revert o. induction cs as [|c cs IH]; intros o.
  - repeat constructor. cbn. lia.
  - rewrite run_cons. cbn [Overlay.held].
    specialize (IH (Overlay.do_call c o)).
    pose proof (do_call_ge c o) as Hc.
    constructor; [|exact IH].
    apply Forall_cons in IH as [Hhd _]. lia.
Qed.

Lemma foldr_max_shift (c x : Z) (xs : list Z) :
  foldr Z.max (Z.max c x) xs = Z.max x (foldr Z.max c xs).
Proof. induction xs as [|y xs IH]; cbn [foldr]; lia. Qed.

(** Two updates in a row can be swapped. *)
Lemma update_update_swap (x y : Z) o :
  Overlay.do_call (Overlay.Update y) (Overlay.do_call (Overlay.Update x) o)
  = Overlay.do_call (Overlay.Update x) (Overlay.do_call (Overlay.Update y) o).
Proof.
  rewrite (do_call_update x o), (do_call_update y o).
  destruct (Z.ltb_spec (Overlay.current o) x) as [Hx|Hx];
    destruct (Z.ltb_spec (Overlay.current o) y) as [Hy|Hy];
    rewrite ?do_call_update, ?current_set_my_peer.
  - destruct (Z.ltb_spec (Z.max (Overlay.current o) x) y);
      destruct (Z.ltb_spec (Z.max (Overlay.current o) y) x);
      unfold Overlay.set_my_peer, Overlay.update_clock; cbn;
      do 2 f_equal; unfold Overlay.current, Overlay.get_lamport_timestamp in *;
      lia.
  - destruct (Z.ltb_spec (Z.max (Overlay.current o) x) y); [lia|].
    destruct (Z.ltb_spec (Overlay.current o) x); [reflexivity|lia].
  - destruct (Z.ltb_spec (Z.max (Overlay.current o) y) x); [lia|].
    destruct (Z.ltb_spec (Overlay.current o) y); [reflexivity|lia].
  - destruct (Z.ltb_spec (Overlay.current o) x); [lia|].
    destruct (Z.ltb_spec (Overlay.current o) y); [lia|reflexivity].
Qed.

(** X10. [claim_global_time] returns normally with the clock value plus
    one, leaves the clock at that value, and changes nothing else of the
    overlay: the master peer, the attributes of the subclass and the key
    and address of [my_peer] are the ones before the call. *)
Theorem claim_global_time_increments o :
  let o' := snd (Overlay.claim_global_time o) in
  Overlay.claim_global_time o = (Ok (Overlay.current o + 1), o')
  /\ Overlay.current o' = Overlay.current o + 1
  /\ Overlay.master_peer o' = Overlay.master_peer o
  /\ Overlay.sub o' = Overlay.sub o
  /\ Overlay.key (Overlay.my_peer o') = Overlay.key (Overlay.my_peer o)
  /\ Overlay.address (Overlay.my_peer o') = Overlay.address (Overlay.my_peer o).
Proof.
  intros o'. subst o'. rewrite claim_global_time_run. cbn [snd].
  rewrite current_set_my_peer. repeat split. lia.
Qed.

(** X11. For every [n], [n] calls of [claim_global_time] in a row from a
    clock at [c] leave the clock at [c + 1], [c + 2], ..., [c + n] in
    turn; these are the values the calls return, so no two of them get the
    same timestamp. *)
Theorem claims_in_a_row (n : nat) o :
  Overlay.held (replicate n Overlay.Claim) o
  = (fun k : nat => Overlay.current o + Z.of_nat k + 1) <$> seq 0 n.
Proof.
  revert o. induction n as [|n IH]; intros o; [reflexivity|].
  cbn [replicate Overlay.held seq]. rewrite fmap_cons, IH, current_claim.
  f_equal; [lia|].
  rewrite <- fmap_S_seq, <- list_fmap_compose.
  apply list_fmap_ext. intros _ k _. cbn. lia.
Qed.

(** X12. After any run of [claim_global_time()] and
    [update_global_time(x)] calls, the next [claim_global_time()] returns a
    value strictly greater than the initial clock value and than every
    value the clock held during the run. *)
Theorem claim_exceeds_history (cs : list Overlay.clock_call) o :
  exists t : Z,
    fst (Overlay.claim_global_time (Overlay.run cs o)) = Ok t
    /\ Forall (fun u => u < t) (Overlay.current o :: Overlay.held cs o).
Proof.
  exists (Overlay.current (Overlay.run cs o) + 1). split.
  - rewrite claim_global_time_run. reflexivity.
  - eapply Forall_impl; [apply held_le_final|]. cbn. intros; lia.
Qed.

(** X13. After [update_global_time] has been called with each value of a
    list in turn, the clock holds the maximum of its initial value and the
    values of the list. *)
Theorem updates_reach_maximum (xs : list Z) o :
  Overlay.current (Overlay.run (Overlay.Update <$> xs) o)
  = foldr Z.max (Overlay.current o) xs.
Proof.
  revert o. induction xs as [|x xs IH]; intros o; [reflexivity|].
  rewrite fmap_cons, run_cons, IH.
  cbn [Overlay.do_call foldr]. rewrite current_update.
  apply foldr_max_shift.
Qed.

(** X14. The order in which remote values are observed does not matter:
    running [update_global_time] over a list of values and over any
    rearrangement of it leaves the same overlay. *)
Theorem updates_order_irrelevant (xs ys : list Z) o :
  xs ≡ₚ ys ->
  Overlay.run (Overlay.Update <$> xs) o = Overlay.run (Overlay.Update <$> ys) o.
Proof.
  intros Hperm. revert o.
  induction Hperm as [|x xs ys _ IH|x y xs|xs ys zs _ IH1 _ IH2]; intros o.
  - reflexivity.
  - rewrite !fmap_cons, !run_cons. apply IH.
  - rewrite !fmap_cons, !run_cons. rewrite update_update_swap. reflexivity.
  - rewrite IH1. apply IH2.
Qed.

End ClockMore.

(** ** More on packet ingestion *)

Section PacketMore.
Context {Key Address Sub : Type} `{Hm : Overlay.Methods Key Address Sub}.
Implicit Types o : Overlay.Overlay Key Address Sub.

(** The three ways [on_packet] can go. *)
Lemma on_packet_cases (source_address : Address) (data : bytes) o :
  (exists e, Overlay.split_key_data data = Raise e
             /\ Overlay.on_packet (source_address, data) o = (Raise e, o))
  \/ (exists key_bin rest e,
         Overlay.split_key_data data = Ok (key_bin, rest)
         /\ Overlay.key_from_public_bin key_bin = Raise e
         /\ Overlay.on_packet (source_address, data) o = (Raise e, o))
  \/ (exists key_bin rest k,
         Overlay.split_key_data data = Ok (key_bin, rest)
         /\ Overlay.key_from_public_bin key_bin = Ok k
         /\ Overlay.on_packet (source_address, data) o
            = Overlay.on_data (Overlay.new_Peer k source_address) rest o).
Proof.
  destruct (Overlay.split_key_data data) as [[key_bin rest]|e] eqn:Hsplit.
  - destruct (Overlay.key_from_public_bin key_bin) as [k|e] eqn:Hkey.
    + right; right. exists key_bin, rest, k.
      split; [reflexivity|]. split; [exact Hkey|].
      apply (on_packet_dispatches source_address data key_bin rest k o Hsplit Hkey).
    + right; left. exists key_bin, rest, e.
      split; [reflexivity|]. split; [exact Hkey|].
      unfold Overlay.on_packet, bind at 1, lift at 1. rewrite Hsplit.
      unfold bind at 1, lift at 1. rewrite Hkey. reflexivity.
  - left. exists e. split; [reflexivity|].
    unfold Overlay.on_packet, bind at 1, lift at 1. rewrite Hsplit. reflexivity.
Qed.

(** X15. [on_packet] changes the overlay only through [on_data]: every
    property of the overlay that each call of [on_data] preserves, whether
    it returns or raises, still holds after [on_packet], for every packet,
    well-formed or not. In particular [on_packet] itself never moves the
    clock. *)
Theorem on_packet_preserves (P : Overlay.Overlay Key Address Sub -> Prop)
    (packet : Address * bytes) o :
  (forall peer data o1, P o1 -> P (snd (Overlay.on_data peer data o1))) ->
  P o ->
  P (snd (Overlay.on_packet packet o)).
Proof.
  intros Hdata Ho. destruct packet as [source_address data].
  destruct (on_packet_cases source_address data o)
    as [(e & _ & ->)|[(kb & rest & e & _ & _ & ->)|(kb & rest & k & _ & _ & ->)]].
  - exact Ho.
  - exact Ho.
  - apply Hdata, Ho.
Qed.

(** X16. [on_packet] returns normally exactly when the packet splits, the
    key bytes parse, and [on_data], called with a new peer made of the
    parsed key and the source address and with the rest of the packet,
    returns normally; it adds no failure of its own. *)
Theorem on_packet_returns_iff (source_address : Address) (data : bytes) o :
  fst (Overlay.on_packet (source_address, data) o) = Ok tt
  <-> exists key_bin rest k,
        Overlay.split_key_data data = Ok (key_bin, rest)
        /\ Overlay.key_from_public_bin key_bin = Ok k
        /\ fst (Overlay.on_data (Overlay.new_Peer k source_address) rest o)
           = Ok tt.
Proof.
  destruct (on_packet_cases source_address data o)
    as [(e & Hs & ->)|[(kb & rest & e & Hs & Hk & ->)
                      |(kb & rest & k & Hs & Hk & ->)]]; cbn [fst].
  - split; [discriminate|]. intros (kb & rest & k & Hs' & _). congruence.
  - split; [discriminate|]. intros (kb' & rest' & k & Hs' & Hk' & _). congruence.
  - split.
    + intros Hok. exists kb, rest, k. repeat split; assumption.
    + intros (kb' & rest' & k' & Hs' & Hk' & Hok).
      rewrite Hs in Hs'. injection Hs' as <- <-.
      rewrite Hk in Hk'. injection Hk' as <-. exact Hok.
Qed.

End PacketMore.

(** ** The payload helper of the endpoint test *)

Section DeserializeFacts.
Context {Fmt Obj E : Type}.
Variable unpack : list Fmt -> bytes -> E + list Obj.

(** [l[:-1]] is [l] without its last element. *)
Lemma slice_all_but_last {A} (l : list A) :
  Py.slice l 0 (-1) = take (length l - 1) l.
Proof.
  unfold Py.slice, Py.clamp, Py.len. cbn [Z.ltb Z.compare].
  rewrite Z.min_l by lia. cbn [Z.to_nat drop].
  f_equal. lia.
Qed.

(** X17. [deserialize_payload] returns the first item that the serializer
    unpacked when there are at least two items (the objects and the
    remaining data); when the serializer returns one item or none, the
    indexing raises [IndexError]; and what the serializer raises is passed
    on. *)
Theorem deserialize_payload_first (serializables : list Fmt) (data : bytes) :
  TestDHTEndpoint.deserialize_payload unpack serializables data
  = match unpack serializables data with
    | inl e => inl (TestDHTEndpoint.FromSerializer e)
    | inr (x :: _ :: _) => inr x
    | inr _ => inl TestDHTEndpoint.IndexError
    end.
Proof.
  unfold TestDHTEndpoint.deserialize_payload.
  destruct (unpack serializables data) as [e|payload]; [reflexivity|].
  rewrite slice_all_but_last.
  destruct payload as [|x [|y rest]]; reflexivity.
Qed.

End DeserializeFacts.

(** ** More concrete runs *)

Section MoreRuns.
Import Examples.

Lemma publish_version_range_witness :
  @DHT.publish_to_DHT env50 key0 value120 65536 ∅ = (Raise struct_error, ∅)
  /\ fst (@DHT.publish_to_DHT env50 key0 value120 65535 ∅) <> Raise struct_error.
Proof.
  split.
  - apply (@publish_version_range env50 ∅ key0 value120 65536). lia.
  - apply (@publish_version_range env50 ∅ key0 value120 65535). lia.
Defined.

Lemma publish_degenerate_slice_size_witness :
  @DHT.publish_to_DHT {| native := Py.little; MAX_ENTRY_SIZE := 3 |}
    key0 value120 1 ∅ = (Raise ValueError, ∅)
  /\ @DHT.publish_to_DHT {| native := Py.little; MAX_ENTRY_SIZE := 2 |}
       key0 value120 1 ∅ = (Ok tt, ∅).
Proof.
  split.
  - apply (@publish_degenerate_slice_size
             {| native := Py.little; MAX_ENTRY_SIZE := 3 |} ∅ key0 value120 1).
    + lia.
    + cbn. lia.
  - apply (@publish_degenerate_slice_size
             {| native := Py.little; MAX_ENTRY_SIZE := 2 |} ∅ key0 value120 1).
    + lia.
    + cbn. lia.
Defined.

Lemma publish_only_appends_witness :
  snd (@DHT.publish_to_DHT env50 [Byte.x6b; Byte.x31] value120 7
         (published [Byte.x41] 1)) !! key0
  = published [Byte.x41] 1 !! key0.
Proof.
  apply (@publish_only_appends env50 (published [Byte.x41] 1)
           [Byte.x6b; Byte.x31] value120 7).
  discriminate.
Defined.

Lemma publish_twice_same_key_witness :
  length (DHT.get (snd (@DHT.publish_to_DHT env50 key0 value120 7636
                          (published value120 4536))) key0) = 6%nat.
Proof.
  destruct (@publish_twice_same_key env50 ∅ key0 value120 value120 4536 7636)
    as (ver1 & ver2 & _ & _ & _ & _ & _ & Hlen).
  - vm_compute. reflexivity.
  - lia.
  - lia.
  - exact Hlen.
Defined.

Lemma publish_commutes_witness :
  snd (@DHT.publish_to_DHT env50 [Byte.x6b; Byte.x31] [Byte.x42] 2
         (snd (@DHT.publish_to_DHT env50 key0 [Byte.x41] 1 ∅)))
  = snd (@DHT.publish_to_DHT env50 key0 [Byte.x41] 1
           (snd (@DHT.publish_to_DHT env50 [Byte.x6b; Byte.x31] [Byte.x42] 2 ∅))).
Proof.
  apply (@publish_commutes env50 ∅ key0 [Byte.x6b; Byte.x31]
           [Byte.x41] [Byte.x42] 1 2).
  discriminate.
Defined.

Lemma published_entries_tagged_witness :
  Py.unpack_H Py.little (take 2 [Byte.x01; Byte.x00; Byte.x41]) = Ok 1
  /\ [Byte.x01; Byte.x00; Byte.x41]
     ∉ DHT.get (snd (@DHT.publish_to_DHT env50 key0 [Byte.x41] 2 ∅)) key0.
Proof.
  destruct (@published_entries_tagged env50 key0 [Byte.x41] [Byte.x41] 1 2)
    as [Htag Hdisj].
  assert (Hin : [Byte.x01; Byte.x00; Byte.x41]
                ∈ DHT.get (snd (@DHT.publish_to_DHT env50 key0 [Byte.x41] 1 ∅))
                    key0)
    by (vm_compute; left).
  split.
  - apply Htag, Hin.
  - apply Hdisj; [lia|exact Hin].
Defined.

Lemma publish_injective_witness : [Byte.x41; Byte.x42] = [Byte.x41; Byte.x42].
Proof.
  apply (@publish_injective env50 ∅ key0 [Byte.x41; Byte.x42]
           [Byte.x41; Byte.x42] 1 1).
  - vm_compute. reflexivity.
  - lia.
  - lia.
  - reflexivity.
Defined.

Lemma published_entry_sizes_witness :
  exists new : list bytes,
    DHT.get (published value120 4536) key0 = DHT.get ∅ key0 ++ new
    /\ forall (k : nat) (e : bytes),
         new !! k = Some e ->
         3 <= Py.len e <= 49
         /\ ((S k < length new)%nat -> Py.len e = 49).
Proof.
  apply (@published_entry_sizes env50 ∅ key0 value120 4536).
  - vm_compute. reflexivity.
  - lia.
Defined.

Lemma publish_changes_iff_nonempty_witness :
  DHT.get (published [Byte.x41] 4536) key0 <> [].
Proof.
  apply (@publish_changes_iff_nonempty env50 ∅ key0 [Byte.x41] 4536).
  - vm_compute. reflexivity.
  - lia.
  - discriminate.
Defined.

Lemma publish_raises_writes_nothing_witness :
  snd (@DHT.publish_to_DHT env50 key0 value120 (-1) (published [Byte.x41] 1))
  = published [Byte.x41] 1
  /\ (struct_error = struct_error \/ struct_error = ValueError).
Proof.
  apply (@publish_raises_writes_nothing env50 (published [Byte.x41] 1) key0
           value120 (-1) struct_error).
  vm_compute. reflexivity.
Defined.

Lemma updates_order_irrelevant_witness :
  Overlay.run (Overlay.Update <$> [12; 4; 30]) (demo_overlay 10)
  = Overlay.run (Overlay.Update <$> [4; 30; 12]) (demo_overlay 10).
Proof.
  apply (updates_order_irrelevant [12; 4; 30] [4; 30; 12] (demo_overlay 10)).
  apply (Permutation_cons_append [4; 30] 12).
Defined.

Lemma on_packet_preserves_witness :
  Overlay.current
    (snd (@Overlay.on_packet _ _ _ demo
            (8091, [Byte.x01; Byte.x02; Byte.x03; Byte.x04; Byte.x41])
            (demo_overlay 10))) = 10.
Proof.
  apply (@on_packet_preserves _ _ _ demo (fun o => Overlay.current o = 10)).
  - intros peer data o1 Ho1. exact Ho1.
  - reflexivity.
Defined.

Lemma on_packet_returns_iff_witness :
  fst (@Overlay.on_packet _ _ _ demo
         (8091, [Byte.x01; Byte.x02; Byte.x03; Byte.x04; Byte.x41])
         (demo_overlay 10)) = Ok tt.
Proof.
  apply (@on_packet_returns_iff _ _ _ demo).
  exists [Byte.x01; Byte.x02; Byte.x03; Byte.x04], [Byte.x41],
         [Byte.x01; Byte.x02; Byte.x03; Byte.x04].
  repeat split.
Defined.

Example claims_run :
  Overlay.held (replicate 3 Overlay.Claim) (demo_overlay 10) = [11; 12; 13].
Proof. reflexivity. Qed.

Example deserialize_run :
  TestDHTEndpoint.deserialize_payload
    (fun (_ : list unit) (d : bytes) =>
       if decide (d = []) then inl MalformedPacket
       else inr [take 1 d; drop 1 d])
    [tt] [Byte.x41; Byte.x42]
  = inr [Byte.x41].
Proof. reflexivity. Qed.

End MoreRuns.

(** ** The publish protocol of the specification *)

Section ProtocolFacts.
Context `{Env}.















End ProtocolFacts.

(** ** The protocol and the reader together *)

Section ProtocolRoundTrip.
Context `{Env}.





End ProtocolRoundTrip.

(** ** The properties of the specification: publication and reconstruction *)

Section ProtocolClaims.
Context `{Env}.





End ProtocolClaims.

(** ** Concrete runs of the protocol *)

Section ProtocolRuns.
Import Examples.

Example raw_lengths_120 :
  length <$> DHT.get (snd (@DHT.publish env50 Byte.x00 key0 value120 4536 ∅)) key0
  = [50; 50; 29]%nat.
Proof. vm_compute. reflexivity. Qed.







End ProtocolRuns.
